(** * jokesMCP: the tool handlers and the SSE session plumbing of index.ts

    The repository holds four revisions of one file: the three that make up
    src/index.ts (called V1, V2 and V3 below, in the order they appear) and
    the unnamed part_000 (called P0).  Each registers five tool handlers on
    an McpServer and wires two Express routes around a table of SSE
    transports.  The handlers and the routes are embedded here as functions;
    the SDK (McpServer, SSEServerTransport) and the network are the
    environment they run in. *)

From Stdlib Require Import String Ascii List NArith Bool Lia.
From stdpp Require Import base gmap strings list.

Local Open Scope string_scope.
Set Warnings "-register-all".

(** ** JavaScript values as the handlers see them *)

Module Js.

(** What [await r.json()] can resolve to.  A number is kept as the text
    that ToString gives it: the handlers never compute with a number, they
    only test it for truthiness, interpolate it or pass it on.  An object
    is the list of its own properties. *)
Inductive JSON : Type :=
| JNull
| JBool (b : bool)
| JNum (repr : string)
| JStr (s : string)
| JArr (items : list JSON)
| JObj (fields : list (string * JSON)).

(** A value held by a variable: [None] is [undefined]. *)
Definition Value : Type := option JSON.

(** What a handler can throw, or a promise reject with. *)
Inductive Exn : Type :=
| FetchFailed            (* fetch() rejected: the endpoint was not reached *)
| BodySyntaxError        (* r.json() rejected: the body is not JSON *)
| TypeError              (* property read on null, call of a non-function, ... *)
| Error (message : string).

(** The state a promise ends in.  [Pending] is a promise that never
    settles: the code sets no deadline on [fetch]. *)
Inductive Settled (A : Type) : Type :=
| Fulfilled (a : A)
| Rejected (e : Exn)
| Pending.
Arguments Fulfilled {A} a.
Arguments Rejected {A} e.
Arguments Pending {A}.

(** Own property of a parsed object. *)
Fixpoint own (k : string) (fields : list (string * JSON)) : Value :=
  match fields with
  | [] => None
  | (k', v) :: rest => if String.eqb k k' then Some v else own k rest
  end.

(** [v.k] for a property name [k] that no built-in prototype defines
    (value, joke, current_condition, weatherDesc, temp_C, ...): reading it
    off [null] throws, off an object it is the own property, off anything
    else it is [undefined]. *)
Definition get (k : string) (v : JSON) : Exn + Value :=
  match v with
  | JNull => inl TypeError
  | JObj fields => inr (own k fields)
  | _ => inr None
  end.

(** [v?.k], same names. *)
Definition get_opt (k : string) (v : Value) : Value :=
  match v with
  | Some (JObj fields) => own k fields
  | _ => None
  end.

(** Number of bytes of the UTF-8 sequence that starts with [c]. *)
Definition utf8_width (c : ascii) : nat :=
  let n := N_of_ascii c in
  if (n <? 192)%N then 1 else if (n <? 224)%N then 2
  else if (n <? 240)%N then 3 else 4.

(** [v?.[0]]: first element of an array, first character of a string,
    property "0" of an object. *)
Definition index0_opt (v : Value) : Value :=
  match v with
  | Some (JArr items) => head items
  | Some (JStr (String c rest)) =>
      Some (JStr (String c (substring 0 (utf8_width c - 1) rest)))
  | Some (JObj fields) => own "0" fields
  | _ => None
  end.

(** ToBoolean.  A parsed number is falsy when it is zero, and both zeros
    print as 0. *)
Definition truthy (v : Value) : bool :=
  match v with
  | None | Some JNull => false
  | Some (JBool b) => b
  | Some (JNum repr) => negb (String.eqb repr "0")
  | Some (JStr s) => negb (String.eqb s "")
  | Some (JArr _) | Some (JObj _) => true
  end.

(** Array.prototype.join over an element printer [f]: [null] elements
    print as the empty string, and the first element that cannot be
    printed aborts the join. *)
Definition join_with (f : JSON -> option string) (sep : string)
  : list JSON -> option string :=
  fix go (items : list JSON) : option string :=
    match items with
    | [] => Some ""
    | x :: rest =>
        match (match x with JNull => Some "" | _ => f x end) with
        | None => None
        | Some sx =>
            match rest with
            | [] => Some sx
            | _ => match go rest with
                   | None => None
                   | Some sr => Some (sx +:+ sep +:+ sr)
                   end
            end
        end
    end.

(** ToString of a parsed value; [None] is the TypeError of an object that
    cannot be converted to a primitive.  A parsed object prints as
    [object Object] through Object.prototype.toString, unless an own
    property named toString hides that method: the own value is not
    callable, valueOf returns the object itself, and the conversion
    throws. *)
Fixpoint toString (v : JSON) : option string :=
  match v with
  | JNull => Some "null"
  | JBool true => Some "true"
  | JBool false => Some "false"
  | JNum repr => Some repr
  | JStr s => Some s
  | JArr items => join_with toString "," items
  | JObj fields =>
      match own "toString" fields with
      | Some _ => None
      | None => Some "[object Object]"
      end
  end.

(** [`${v}`] inside a template literal. *)
Definition interpolate (v : Value) : Exn + string :=
  match v with
  | None => inr "undefined"
  | Some j => match toString j with
              | Some s => inr s
              | None => inl TypeError
              end
  end.

(** [`${s}`] and [encodeURIComponent(s)] see a [string | undefined]
    through ToString. *)
Definition text_of (s : option string) : string :=
  match s with
  | Some s => s
  | None => "undefined"
  end.

(** The opposite of [!s], for a [string | undefined]. *)
Definition nonempty (s : option string) : bool :=
  match s with
  | Some s => negb (String.eqb s "")
  | None => false
  end.

(** *** String.prototype.trim, on the UTF-8 bytes of the string *)

Definition ws1 (a : N) : bool :=
  ((9 <=? a) && (a <=? 13) || (a =? 32))%N.

(** U+00A0. *)
Definition ws2 (a b : N) : bool :=
  ((a =? 194) && (b =? 160))%N.

(** U+1680, U+2000..U+200A, U+2028, U+2029, U+202F, U+205F, U+3000,
    U+FEFF. *)
Definition ws3 (a b c : N) : bool :=
  ((a =? 225) && (b =? 154) && (c =? 128)
   || (a =? 226) && (b =? 128)
      && ((128 <=? c) && (c <=? 138) || (c =? 168) || (c =? 169) || (c =? 175))
   || (a =? 226) && (b =? 129) && (c =? 159)
   || (a =? 227) && (b =? 128) && (c =? 128)
   || (a =? 239) && (b =? 187) && (c =? 191))%N.

(** Drops white space and line terminators from the front of a byte
    list; with [backwards] the list is a reversed string and each
    sequence is met last byte first. *)
Fixpoint strip (backwards : bool) (s : list ascii) : list ascii :=
  match s with
  | [] => []
  | a :: r1 =>
      if ws1 (N_of_ascii a) then strip backwards r1 else
      match r1 with
      | [] => s
      | b :: r2 =>
          if (if backwards then ws2 (N_of_ascii b) (N_of_ascii a)
              else ws2 (N_of_ascii a) (N_of_ascii b))
          then strip backwards r2 else
          match r2 with
          | [] => s
          | c :: r3 =>
              if (if backwards
                  then ws3 (N_of_ascii c) (N_of_ascii b) (N_of_ascii a)
                  else ws3 (N_of_ascii a) (N_of_ascii b) (N_of_ascii c))
              then strip backwards r3 else s
          end
      end
  end.

Definition trim (s : string) : string :=
  string_of_list_ascii
    (rev (strip true (rev (strip false (list_ascii_of_string s))))).

(** *** encodeURIComponent, on the UTF-8 bytes of the string *)

Definition unreserved (c : ascii) : bool :=
  let n := N_of_ascii c in
  ((48 <=? n) && (n <=? 57) || (65 <=? n) && (n <=? 90)
   || (97 <=? n) && (n <=? 122))%N
  || existsb (Ascii.eqb c) (list_ascii_of_string "-_.!~*'()").

Definition hex_digit (n : N) : ascii :=
  match String.get (N.to_nat n) "0123456789ABCDEF" with
  | Some c => c
  | None => "0"%char
  end.

Fixpoint encodeURIComponent (s : string) : string :=
  match s with
  | EmptyString => EmptyString
  | String c rest =>
      if unreserved c then String c (encodeURIComponent rest)
      else String "%" (String (hex_digit (N_of_ascii c / 16))
                         (String (hex_digit (N_of_ascii c mod 16))
                            (encodeURIComponent rest)))
  end.

(** Whether a byte list begins with white space or a line terminator
    (with [backwards], whether the reversed string ends with one). *)
Definition ws_head (backwards : bool) (s : list ascii) : bool :=
  match s with
  | [] => false
  | a :: r1 =>
      ws1 (N_of_ascii a)
      || match r1 with
         | [] => false
         | b :: r2 =>
             (if backwards then ws2 (N_of_ascii b) (N_of_ascii a)
              else ws2 (N_of_ascii a) (N_of_ascii b))
             || match r2 with
                | [] => false
                | c :: _ =>
                    if backwards
                    then ws3 (N_of_ascii c) (N_of_ascii b) (N_of_ascii a)
                    else ws3 (N_of_ascii a) (N_of_ascii b) (N_of_ascii c)
                end
         end
  end.

(** The value of a digit that [hex_digit] wrote. *)
Definition hex_value (c : ascii) : N :=
  let n := N_of_ascii c in
  if (n <? 58)%N then (n - 48)%N else (n - 55)%N.

End Js.

(** ** The tool handlers *)

Module Tools.
Import Js.

(** How the third-party endpoint answers one [fetch]: the request fails,
    nothing ever comes back, the body is not JSON, or the body parses.
    The status code is not looked at by any handler. *)
Inductive Upstream : Type :=
| Unreachable
| Silent
| NotJson
| Body (data : JSON).

(** The network, by URL. *)
Definition Net : Type := string -> Upstream.

(** [{ type: "text", text: ... }] and [{ content: [...] }]. *)
Record Block : Type := { type : string; text : Value }.
Record ToolResult : Type := { content : list Block }.

(** One run of an async function: the URLs it fetched, in order, and the
    state its promise ends in. *)
Record Run (A : Type) : Type := { calls : list string; outcome : Settled A }.
Arguments calls {A} r.
Arguments outcome {A} r.

Definition Async (A : Type) : Type := Net -> Run A.

Definition pure {A} (a : A) : Async A :=
  fun _ => {| calls := []; outcome := Fulfilled a |}.

Definition throw {A} (e : Exn) : Async A :=
  fun _ => {| calls := []; outcome := Rejected e |}.

Definition and_then {A B} (m : Async A) (k : A -> Async B) : Async B :=
  fun net =>
    let r := m net in
    match outcome r with
    | Fulfilled a =>
        let r' := k a net in
        {| calls := calls r ++ calls r'; outcome := outcome r' |}
    | Rejected e => {| calls := calls r; outcome := Rejected e |}
    | Pending => {| calls := calls r; outcome := Pending |}
    end.

(** [try { m } catch { h }]: the handler's catch clauses bind nothing. *)
Definition try_catch {A} (m h : Async A) : Async A :=
  fun net =>
    let r := m net in
    match outcome r with
    | Rejected _ =>
        let r' := h net in
        {| calls := calls r ++ calls r'; outcome := outcome r' |}
    | _ => r
    end.

(** A synchronous step that may throw. *)
Definition lift {A} (x : Exn + A) : Async A :=
  match x with
  | inl e => throw e
  | inr a => pure a
  end.

(** [await fetch(url).then(r => r.json())], also written as two awaits. *)
Definition fetch_json (url : string) : Async JSON :=
  fun net =>
    {| calls := [url];
       outcome := match net url with
                  | Unreachable => Rejected FetchFailed
                  | Silent => Pending
                  | NotJson => Rejected BodySyntaxError
                  | Body data => Fulfilled data
                  end |}.

Notation "'let!' x ':=' m 'in' k" := (and_then m (fun x => k))
  (at level 10, x name, m at level 100, k at level 200,
   format "'[v' 'let!'  x  ':='  m  'in' '/' k ']'").
Notation "'try!' m 'catch!' h" := (try_catch m h)
  (at level 10, m at level 200, h at level 200).

(** [{ content: [{ type: "text", text: v }] }]. *)
Definition reply (v : Value) : ToolResult :=
  {| content := [ {| type := "text"; text := v |} ] |}.

Definition say (s : string) : ToolResult := reply (Some (JStr s)).

(** The handler argument: [{ city?: string }] ([any] in V1, read with
    [params?.city] into a [string | undefined]). *)
Record Params : Type := { city : option string }.

(** *** Joke handlers: the same in the four revisions *)

(** [const { value } = await res.json()], or [data.value]. *)
Definition getChuckJoke (_ : Params) : Async ToolResult :=
  let! data := fetch_json "https://api.chucknorris.io/jokes/random" in
  let! value := lift (get "value" data) in
  pure (reply value).

(** [data.join(", ")]: only an array has a [join] to call. *)
Definition join (sep : string) (data : JSON) : Exn + string :=
  match data with
  | JArr items =>
      match join_with toString sep items with
      | Some s => inr s
      | None => inl TypeError
      end
  | _ => inl TypeError
  end.

Definition getChuckCategories (_ : Params) : Async ToolResult :=
  let! data := fetch_json "https://api.chucknorris.io/jokes/categories" in
  let! joined := lift (join ", " data) in
  pure (say joined).

Definition getDadJoke (_ : Params) : Async ToolResult :=
  let! data := fetch_json "https://icanhazdadjoke.com/" in
  let! joke := lift (get "joke" data) in
  pure (reply joke).

Definition getYoMamaJoke (_ : Params) : Async ToolResult :=
  let! data := fetch_json "https://www.yomama-jokes.com/api/v1/jokes/random" in
  let! joke := lift (get "joke" data) in
  pure (reply joke).

(** *** Weather handler: what the revisions share *)

Definition wttr (city : option string) : string :=
  "https://wttr.in/" +:+ encodeURIComponent (text_of city) +:+ "?format=j1".

(** Sequencing of synchronous steps that may throw. *)
Definition chain {A B} (x : Exn + A) (k : A -> Exn + B) : Exn + B :=
  match x with
  | inl e => inl e
  | inr a => k a
  end.

Notation "'do!' x ':=' e 'in' k" := (chain e (fun x => k))
  (at level 10, x name, e at level 100, k at level 200,
   format "'[v' 'do!'  x  ':='  e  'in' '/' k ']'").

(** The reply template, over the current-condition object [cur], which
    the caller has found truthy; the placeholders are printed from left
    to right. *)
Definition weather_text (city : option string) (cur : Value) : Exn + string :=
  do! desc := interpolate
                (get_opt "value" (index0_opt (get_opt "weatherDesc" cur))) in
  do! tempC := interpolate (get_opt "temp_C" cur) in
  do! tempF := interpolate (get_opt "temp_F" cur) in
  do! humidity := interpolate (get_opt "humidity" cur) in
  do! wind := interpolate (get_opt "windspeedKmph" cur) in
  inr ("Weather in " +:+ text_of city +:+ ": " +:+ desc +:+ ". "
       +:+ "Temp " +:+ tempC +:+ " °C (" +:+ tempF +:+ " °F), "
       +:+ "Humidity " +:+ humidity +:+ " %, Wind " +:+ wind +:+ " km/h.").

Definition apology (city : option string) : ToolResult :=
  say ("Sorry—couldn’t fetch weather for “" +:+ text_of city +:+ "”.").

(** The guarded body of V1, V2 and P0, which differ in the message of
    the Error they throw to themselves. *)
Definition weather_try (no_data : string) (city : option string)
  : Async ToolResult :=
  try!
    (let! data := fetch_json (wttr city) in
     let! cc := lift (get "current_condition" data) in
     let current := index0_opt cc in
     if negb (truthy current) then throw (Error no_data) else
     let! text := lift (weather_text city current) in
     pure (say text))
  catch! pure (apology city).

Module V1.
Definition getWeather (params : Params) : Async ToolResult :=
  let city := city params in
  if negb (nonempty city) then pure (say "Please tell me which city.")
  else weather_try "No data" city.
End V1.

Module V2.
Definition getWeather (params : Params) : Async ToolResult :=
  let city := city params in
  if negb (nonempty city)
  then pure (say "Please specify a city name (e.g. London).")
  else weather_try "No weather data" city.
End V2.

(** V3 types the argument [{ city: string }]: no guard, no try. *)
Module V3.
Definition getWeather (params : Params) : Async ToolResult :=
  let city := city params in
  let! data := fetch_json (wttr city) in
  let! cc := lift (get "current_condition" data) in
  let cur := index0_opt cc in
  if negb (truthy cur) then pure (apology city) else
  let! text := lift (weather_text city cur) in
  pure (say text).
End V3.

Module P0.
Definition getWeather (params : Params) : Async ToolResult :=
  let city := option_map trim (city params) in
  if negb (nonempty city)
  then pure (say "Please specify a city name (e.g. London).")
  else weather_try "No weather data" city.
End P0.

(** *** What each revision registers *)

Inductive Revision : Type := RevV1 | RevV2 | RevV3 | RevP0.

(** An entry of the [tools] option given to [new McpServer]. *)
Record Declared : Type :=
  { tool_name : string; required : list string }.

Definition declared (_ : Revision) : list Declared :=
  [ {| tool_name := "get-chuck-joke"; required := [] |};
    {| tool_name := "get-chuck-categories"; required := [] |};
    {| tool_name := "get-dad-joke"; required := [] |};
    {| tool_name := "get-yo-mama-joke"; required := [] |};
    {| tool_name := "get-weather"; required := ["city"] |} ].

Definition getWeather (rev : Revision) : Params -> Async ToolResult :=
  match rev with
  | RevV1 => V1.getWeather
  | RevV2 => V2.getWeather
  | RevV3 => V3.getWeather
  | RevP0 => P0.getWeather
  end.

(** The [server.tool(name, ..., handler)] calls, in order. *)
Definition registered (rev : Revision)
  : list (string * (Params -> Async ToolResult)) :=
  [ ("get-chuck-joke", getChuckJoke);
    ("get-chuck-categories", getChuckCategories);
    ("get-dad-joke", getDadJoke);
    ("get-yo-mama-joke", getYoMamaJoke);
    ("get-weather", getWeather rev) ].

(** A result that is one text block holding a string. *)
Definition one_string_block (result : ToolResult) : Prop :=
  exists s, content result = [ {| type := "text"; text := Some (JStr s) |} ].

(** *** A stubbed upstream answer *)

(** A figure of the answer, as the string wttr.in sends or as a number. *)
Definition figure (numeric : bool) (digits : string) : JSON :=
  if numeric then JNum digits else JStr digits.

(** The j1 answer of wttr.in, cut down to what the handler reads. *)
Definition conditions (numeric : bool)
    (desc temp_C temp_F humidity windspeedKmph : string) : JSON :=
  JObj [ ("current_condition",
          JArr [ JObj [ ("humidity", figure numeric humidity);
                        ("temp_C", figure numeric temp_C);
                        ("temp_F", figure numeric temp_F);
                        ("weatherDesc", JArr [ JObj [ ("value", JStr desc) ] ]);
                        ("windspeedKmph", figure numeric windspeedKmph) ] ]) ].

(** The city as the weather handler of a revision uses it: P0 trims. *)
Definition seen_city (rev : Revision) (params : Params) : option string :=
  match rev with
  | RevP0 => option_map trim (city params)
  | _ => city params
  end.

(** The fixed URLs of the joke handlers. *)
Definition joke_urls : list string :=
  [ "https://api.chucknorris.io/jokes/random";
    "https://api.chucknorris.io/jokes/categories";
    "https://icanhazdadjoke.com/";
    "https://www.yomama-jokes.com/api/v1/jokes/random" ].

(** *** How the registered callbacks are called *)

(** One [server.tool(...)] call of the source: the name, the description
    where one is given, the parameter schema where one is given, and the
    callback. *)
Record Registration : Type :=
  { reg_name : string;
    reg_description : option string;
    paramsSchema : option (list string);
    callback : Params -> Async ToolResult }.

(** The descriptions: V1 has its own wording, V2 and P0 share theirs,
    V3 gives none. *)
Definition described (rev : Revision) (v1 others : string) : option string :=
  match rev with
  | RevV1 => Some v1
  | RevV2 | RevP0 => Some others
  | RevV3 => None
  end.

(** No call passes a schema: the arguments of each are the name, the
    description (not in V3) and the callback.  The schema with
    [required: ["city"]] is given to [new McpServer], see [declared]. *)
Definition registrations (rev : Revision) : list Registration :=
  [ {| reg_name := "get-chuck-joke";
       reg_description := described rev "Get a random Chuck Norris joke"
                            "Get a random Chuck Norris joke";
       paramsSchema := None; callback := getChuckJoke |};
    {| reg_name := "get-chuck-categories";
       reg_description := described rev "Get all Chuck Norris joke categories"
                            "Get all available categories for Chuck Norris jokes";
       paramsSchema := None; callback := getChuckCategories |};
    {| reg_name := "get-dad-joke";
       reg_description := described rev "Get a random dad joke"
                            "Get a random dad joke";
       paramsSchema := None; callback := getDadJoke |};
    {| reg_name := "get-yo-mama-joke";
       reg_description := described rev "Get a random Yo-Mama joke"
                            "Get a random Yo Mama joke";
       paramsSchema := None; callback := getYoMamaJoke |};
    {| reg_name := "get-weather";
       reg_description :=
         described rev "Get current weather information for a given city"
           "Get current weather information for a given city";
       paramsSchema := None; callback := getWeather rev |} ].

(** The rule of McpServer that the registrations depend on.  McpServer
    belongs to the SDK, a dependency and not part of the repository: a
    callback registered with a parameter schema is called with the
    arguments of the tools/call request; a callback registered without
    one is called with the request's extra object alone, and that
    object has no [city]. *)
Definition callback_argument (r : Registration) (arguments : Params) : Params :=
  match paramsSchema r with
  | Some _ => arguments
  | None => {| city := None |}
  end.

(** A tools/call request for [name] with [arguments], down to the run of
    the callback; [None] when no tool has the name. *)
Definition call_tool (rev : Revision) (name : string) (arguments : Params)
    (net : Net) : option (Run ToolResult) :=
  match find (fun r => String.eqb (reg_name r) name) (registrations rev) with
  | Some r => Some (callback r (callback_argument r arguments) net)
  | None => None
  end.

End Tools.


(** ** Express and SSE plumbing: the same in the four revisions *)

Module Server.
Import Js.

(** What the routes use of an SSEServerTransport: the id its constructor
    drew, the endpoint it was given and the response it streams on
    (a handle). *)
Record SSEServerTransport : Type :=
  { sessionId : string; endpoint : string; res : nat }.

(** [const transports = {}]: the own properties of the object. *)
Abbreviation Registry := (gmap string SSEServerTransport).

(** The string-keyed members of Object.prototype, which every object
    literal inherits. *)
Definition object_prototype : list string :=
  [ "constructor"; "__defineGetter__"; "__defineSetter__"; "hasOwnProperty";
    "__lookupGetter__"; "__lookupSetter__"; "isPrototypeOf";
    "propertyIsEnumerable"; "toString"; "valueOf"; "__proto__";
    "toLocaleString" ].

Definition inherited (key : string) : bool :=
  existsb (String.eqb key) object_prototype.

(** What [transports[key]] evaluates to: an own property wins, then the
    prototype is asked, then the read is [undefined]. *)
Inductive Slot : Type :=
| Missing
| Builtin (name : string)
| Transport (t : SSEServerTransport).

Definition read (transports : Registry) (key : string) : Slot :=
  match transports !! key with
  | Some t => Transport t
  | None => if inherited key then Builtin key else Missing
  end.

(** How a route ends: it answers by itself, it hands the request and the
    response to the transport, it hands the transport to the server, or
    it throws. *)
Inductive Reply : Type :=
| Send (status : nat) (body : string)
| HandlePostMessage (t : SSEServerTransport)
| Connect (t : SSEServerTransport)
| Throw (e : Exn).

(** [app.get("/sse", ...)].  [host] is [req.get("host")], [res] the
    response, and [fresh] the session id that [new SSEServerTransport]
    draws with randomUUID: a UUID is not [__proto__], so the assignment
    defines or overwrites an own property. *)
Definition get_sse (host : option string) (res : nat) (fresh : string)
    (transports : Registry) : Registry * Reply :=
  let transport :=
    {| sessionId := fresh;
       endpoint := "https://" +:+ text_of host +:+ "/jokes";
       res := res |} in
  (<[sessionId transport := transport]> transports, Connect transport).

(** [res.on("close", () => delete transports[transport.sessionId])]: the
    callback, for the transport it closes over. *)
Definition on_close (transport : SSEServerTransport) (transports : Registry)
  : Registry :=
  delete (sessionId transport) transports.

(** [app.post("/jokes", ...)].  [query] is [req.query.sessionId]; used as
    a property key it goes through ToString.  A truthy value that is not
    a transport has no [handlePostMessage] to call. *)
Definition post_jokes (query : option string) (transports : Registry)
  : Registry * Reply :=
  match read transports (text_of query) with
  | Transport transport => (transports, HandlePostMessage transport)
  | Builtin _ => (transports, Throw TypeError)
  | Missing => (transports, Send 400 "No transport found for sessionId")
  end.

(** [app.get("/", ...)]. *)
Definition get_root (transports : Registry) : Registry * Reply :=
  (transports, Send 200 "The Jokes MCP server is running!").

(** What can happen to the server, one at a time on the event loop. *)
Inductive Event : Type :=
| GetSse (host : option string) (res : nat) (fresh : string)
| PostJokes (query : option string)
| GetRoot
| Close (transport : SSEServerTransport).

Definition step (e : Event) (transports : Registry) : Registry :=
  match e with
  | GetSse host res fresh => fst (get_sse host res fresh transports)
  | PostJokes query => fst (post_jokes query transports)
  | GetRoot => fst (get_root transports)
  | Close transport => on_close transport transports
  end.

Definition run (events : list Event) (transports : Registry) : Registry :=
  foldl (fun acc e => step e acc) transports events.

(** No stream is opened under [id] in [events]. *)
Definition opens (id : string) (e : Event) : bool :=
  match e with
  | GetSse _ _ fresh => String.eqb fresh id
  | _ => false
  end.

(** The transport that [get_sse] builds. *)
Definition stream (host : option string) (res : nat) (fresh : string)
  : SSEServerTransport :=
  {| sessionId := fresh;
     endpoint := "https://" +:+ text_of host +:+ "/jokes";
     res := res |}.

(** The ids under which [events] open a stream, in order. *)
Definition opened (events : list Event) : list string :=
  flat_map (fun e => match e with
                     | GetSse _ _ fresh => [fresh]
                     | _ => []
                     end) events.

(** The close callback of a session with this id runs. *)
Definition closes (id : string) (e : Event) : bool :=
  match e with
  | Close transport => String.eqb (sessionId transport) id
  | _ => false
  end.

End Server.


(** * The JavaScript helpers on small inputs *)

Section Helpers.
Import Js.

Example trim_both_ends : trim "  New York " = "New York".
Proof. reflexivity. Qed.

(** U+3000 in front, U+00A0 behind. *)
Example trim_wide_space : trim "　Oslo " = "Oslo".
Proof. reflexivity. Qed.

Example encode_space_and_slash :
  encodeURIComponent "New York/é" = "New%20York%2F%C3%A9".
Proof. reflexivity. Qed.

Example join_skips_null :
  join_with toString ", " [JStr "dev"; JNull; JArr [JNum "1"; JNum "2"]]
  = Some "dev, , 1,2".
Proof. reflexivity. Qed.

Example own_toString_breaks_interpolation :
  interpolate (Some (JObj [("toString", JStr "x")])) = inl TypeError.
Proof. reflexivity. Qed.

(** The template prints each field through ToString, which maps strings
    to themselves. *)
Lemma interpolate_string s : interpolate (Some (JStr s)) = inr s.
Proof. reflexivity. Qed.

End Helpers.


(** * Properties of the plumbing *)

Section Plumbing.
Import Js Server.

Implicit Types (transports : Registry) (t : SSEServerTransport)
  (key id : string) (query : option string) (events : list Event).

Lemma read_own transports key t :
  transports !! key = Some t -> read transports key = Transport t.
Proof. intros Hown. unfold read. by rewrite Hown. Qed.

Lemma read_absent transports key :
  transports !! key = None ->
  read transports key = if inherited key then Builtin key else Missing.
Proof. intros Hno. unfold read. by rewrite Hno. Qed.

(** A transport comes out of the table only from an own property. *)
Lemma read_transport transports key t :
  read transports key = Transport t <-> transports !! key = Some t.
Proof.
  unfold read. destruct (transports !! key) as [t'|] eqn:Hk.
  - split; congruence.
  - destruct (inherited key); split; discriminate.
Qed.

(** The POST route, by the three kinds of key. *)
Lemma post_jokes_session query transports t :
  transports !! text_of query = Some t ->
  post_jokes query transports = (transports, HandlePostMessage t).
Proof. intros Hown. unfold post_jokes. by rewrite (read_own _ _ t). Qed.

Lemma post_jokes_unknown query transports :
  transports !! text_of query = None ->
  inherited (text_of query) = false ->
  post_jokes query transports
  = (transports, Send 400 "No transport found for sessionId").
Proof.
  intros Hno Hplain. unfold post_jokes.
  by rewrite read_absent, Hplain.
Qed.

Lemma post_jokes_inherited query transports :
  transports !! text_of query = None ->
  inherited (text_of query) = true ->
  post_jokes query transports = (transports, Throw TypeError).
Proof.
  intros Hno Hbuiltin. unfold post_jokes.
  by rewrite read_absent, Hbuiltin.
Qed.

(** Whatever the key, a request whose id has no entry is never handed to
    a transport: the SDK, and with it every tool handler and every
    stream, stays out of it. *)
Lemma post_jokes_absent_not_dispatched query transports t :
  transports !! text_of query = None ->
  snd (post_jokes query transports) <> HandlePostMessage t.
Proof.
  intros Hno. unfold post_jokes. rewrite read_absent by done.
  by destruct (inherited _).
Qed.

Lemma step_lookup_ne e transports key :
  (forall host r, e <> GetSse host r key) ->
  (forall t, e = Close t -> sessionId t <> key) ->
  step e transports !! key = transports !! key.
Proof.
  intros Hopen Hclose. destruct e as [host r fresh|query| |t]; cbn.
  - apply lookup_insert_ne. intros ->. by eapply Hopen.
  - unfold post_jokes. by destruct (read _ _).
  - done.
  - unfold on_close. apply lookup_delete_ne. by eapply Hclose.
Qed.

Lemma run_snoc events e transports :
  run (events ++ [e]) transports = step e (run events transports).
Proof. unfold run. by rewrite foldl_app. Qed.

(** An id with no entry stays without one for as long as no stream is
    opened under it. *)
Lemma run_stays_absent events transports id :
  Forall (fun e => opens id e = false) events ->
  transports !! id = None ->
  run events transports !! id = None.
Proof.
  induction events as [|e events IH] using rev_ind; intros Hev Hno.
  - done.
  - apply Forall_app in Hev as [Hev He]. apply Forall_inv in He.
    rewrite run_snoc. destruct e as [host r fresh|query| |t]; cbn.
    + cbn in He. apply String.eqb_neq in He.
      rewrite lookup_insert_ne by done. by apply IH.
    + unfold post_jokes. destruct (read _ _); by apply IH.
    + by apply IH.
    + unfold on_close. rewrite lookup_delete_None. right. by apply IH.
Qed.

(** C1, at the id "constructor": the table has no such session, the read
    finds the member that every object inherits, the truthy branch is
    taken and the call of the missing handlePostMessage throws; no 400 is
    sent. *)
Theorem post_jokes_constructor transports :
  transports !! "constructor" = None ->
  post_jokes (Some "constructor") transports = (transports, Throw TypeError).
Proof. intros Hno. by apply post_jokes_inherited. Qed.

Lemma post_jokes_constructor_witness :
  post_jokes (Some "constructor") (∅ : Registry) = (∅, Throw TypeError).
Proof. apply post_jokes_constructor. apply lookup_empty. Defined.

(** C4: the close callback removes the entry of its session and running
    it again changes nothing; from then on, until a stream is opened
    under the same id again, a read of that id never yields a transport:
    it is undefined, and the POST route answers 400, for every id that
    is not the name of a member of Object.prototype (no UUID is). *)
Theorem close_then_lookup t transports events :
  Forall (fun e => opens (sessionId t) e = false) events ->
  let closed := on_close t transports in
  let later := run events closed in
  closed !! sessionId t = None
  /\ on_close t closed = closed
  /\ (forall t', read later (sessionId t) <> Transport t')
  /\ (inherited (sessionId t) = false ->
      read later (sessionId t) = Missing
      /\ snd (post_jokes (Some (sessionId t)) later)
         = Send 400 "No transport found for sessionId").
Proof.
  intros Hev closed later.
  assert (Hgone : closed !! sessionId t = None) by apply lookup_delete_eq.
  assert (Hlater : later !! sessionId t = None)
    by (by apply run_stays_absent).
  split; [done|]. split; [unfold on_close; by apply delete_id|]. split.
  - intros t' Hread. apply read_transport in Hread. congruence.
  - intros Hplain. split.
    + rewrite read_absent by done. by rewrite Hplain.
    + by rewrite post_jokes_unknown.
Qed.

Lemma close_then_lookup_witness :
  let t := {| sessionId := "s1"; endpoint := "https://h/jokes"; res := 0 |} in
  let later :=
    run [PostJokes (Some "s1"); GetSse (Some "h") 1 "s2"; GetRoot]
        (on_close t (fst (get_sse (Some "h") 0 "s1" ∅))) in
  read later "s1" = Missing.
Proof.
  intros t later.
  refine (proj1 (proj2 (proj2 (proj2
    (close_then_lookup t (fst (get_sse (Some "h") 0 "s1" ∅))
       [PostJokes (Some "s1"); GetSse (Some "h") 1 "s2"; GetRoot] _))) _)).
  - repeat constructor.
  - reflexivity.
Defined.

(** C10: the POST route gives back the table it was given, whatever the
    request and whichever branch it takes; and when a step of the server
    changes what is stored under a key, the step is a stream being
    opened under that key or the close callback of a session with that
    id. *)
Theorem post_jokes_leaves_registry query transports :
  fst (post_jokes query transports) = transports
  /\ step (PostJokes query) transports = transports
  /\ dom (step (PostJokes query) transports) = dom transports
  /\ (forall e key,
        step e transports !! key <> transports !! key ->
        (exists host r, e = GetSse host r key)
        \/ (exists t, e = Close t /\ sessionId t = key)).
Proof.
  assert (Hfst : fst (post_jokes query transports) = transports).
  { unfold post_jokes. by destruct (read _ _). }
  repeat split; try (cbn; by rewrite ?Hfst).
  intros e key Hchanged.
  destruct e as [host r fresh|query'| |t]; cbn in Hchanged.
  - left. destruct (decide (fresh = key)) as [->|Hne]; [by eauto|].
    by rewrite lookup_insert_ne in Hchanged.
  - exfalso. apply Hchanged. unfold post_jokes. by destruct (read _ _).
  - done.
  - right. exists t. split; [done|].
    destruct (decide (sessionId t = key)) as [|Hne]; [done|].
    unfold on_close in Hchanged. by rewrite lookup_delete_ne in Hchanged.
Qed.

Lemma post_jokes_leaves_registry_witness :
  exists t, Close {| sessionId := "s1"; endpoint := "e"; res := 0 |} = Close t
            /\ sessionId t = "s1".
Proof.
  pose (t := {| sessionId := "s1"; endpoint := "e"; res := 0 |}).
  destruct (proj2 (proj2 (proj2
    (post_jokes_leaves_registry None (<["s1" := t]> ∅))))
      (Close t) "s1") as [(host & r & Habs)|Hclose].
  - vm_compute. discriminate.
  - discriminate Habs.
  - exact Hclose.
Defined.

End Plumbing.


(** * Properties of the handlers *)

Section Handlers.
Import Js Tools.

Implicit Types (net : Net) (params : Params) (rev : Revision)
  (city : option string) (result : ToolResult).

(** The guarded weather body fetches once and looks at the network
    through that URL only. *)
Lemma weather_try_calls msg city net :
  calls (weather_try msg city net) = [wttr city].
Proof.
  unfold weather_try, try_catch, and_then, fetch_json, lift. cbn.
  destruct (net (wttr city)) as [| | |data]; cbn; try done.
  destruct (get "current_condition" data) as [e|cc]; cbn; [done|].
  destruct (truthy (index0_opt cc)); cbn; [|done].
  by destruct (weather_text city (index0_opt cc)).
Qed.

Lemma weather_try_ext msg city net net' :
  net (wttr city) = net' (wttr city) ->
  weather_try msg city net = weather_try msg city net'.
Proof.
  intros Hsame.
  unfold weather_try, try_catch, and_then, fetch_json, lift. cbn.
  rewrite Hsame.
  destruct (net' (wttr city)) as [| | |data]; cbn; try done.
  destruct (get "current_condition" data) as [e|cc]; cbn; [done|].
  destruct (truthy (index0_opt cc)); cbn; [|done].
  by destruct (weather_text city (index0_opt cc)).
Qed.

(** Whatever the network does, the guarded body never rejects: it stays
    pending when nothing comes back, and otherwise fulfils with one
    sentence. *)
Lemma weather_try_settles msg city net :
  outcome (weather_try msg city net) = Pending
  \/ exists s, outcome (weather_try msg city net) = Fulfilled (say s).
Proof.
  unfold weather_try, try_catch, and_then, fetch_json, lift, apology. cbn.
  destruct (net (wttr city)) as [| | |data]; cbn; eauto.
  destruct (get "current_condition" data) as [e|cc]; cbn; eauto.
  destruct (truthy (index0_opt cc)); cbn; eauto.
  destruct (weather_text city (index0_opt cc)); cbn; eauto.
Qed.

(** Endpoint not reached, body not JSON, body [null], no current
    condition: the guarded body apologises, naming the city. *)
Lemma weather_try_apologises msg city net :
  net (wttr city) = Unreachable \/ net (wttr city) = NotJson
  \/ net (wttr city) = Body JNull
  \/ (exists fields, net (wttr city) = Body (JObj fields)
                     /\ own "current_condition" fields = None) ->
  outcome (weather_try msg city net) = Fulfilled (apology city).
Proof.
  unfold weather_try, try_catch, and_then, fetch_json, lift. cbn.
  intros [-> | [-> | [-> | (fields & -> & Hno)]]]; cbn; try done.
  by rewrite Hno.
Qed.


(** At an endpoint that cannot be reached: the four joke handlers, and
    the weather handler of V3, have no catch, and their promise rejects
    with the failure of [fetch]; what becomes of the rejection is up to
    the caller. *)
Theorem unguarded_handlers_reject params :
  let down : Net := fun _ => Unreachable in
  outcome (getChuckJoke params down) = Rejected FetchFailed
  /\ outcome (getChuckCategories params down) = Rejected FetchFailed
  /\ outcome (getDadJoke params down) = Rejected FetchFailed
  /\ outcome (getYoMamaJoke params down) = Rejected FetchFailed
  /\ outcome (V3.getWeather params down) = Rejected FetchFailed.
Proof. cbn. repeat split. Qed.

(** The same handlers on a body that is not JSON and on the body
    [null]. *)
Lemma unguarded_handlers_reject_bad_body params :
  outcome (getChuckJoke params (fun _ => NotJson)) = Rejected BodySyntaxError
  /\ outcome (getChuckJoke params (fun _ => Body JNull)) = Rejected TypeError
  /\ outcome (getChuckCategories params (fun _ => Body (JObj [])))
     = Rejected TypeError
  /\ outcome (V3.getWeather params (fun _ => Body JNull)) = Rejected TypeError.
Proof. cbn. repeat split. Qed.

(** A body of another shape than expected is not a failure to the
    guarded handler: a current condition without fields is reported with
    every placeholder undefined; and a joke body without the property
    gives a block whose text is undefined. *)
Example empty_condition_reported net :
  net (wttr (Some "Oslo")) = Body (JObj [("current_condition", JArr [JObj []])]) ->
  outcome (weather_try "No data" (Some "Oslo") net)
  = Fulfilled (say
      "Weather in Oslo: undefined. Temp undefined °C (undefined °F), Humidity undefined %, Wind undefined km/h.").
Proof.
  intros Hnet.
  unfold weather_try, try_catch, and_then, fetch_json, lift. cbn.
  by rewrite Hnet.
Qed.

Example empty_joke_body params :
  outcome (getDadJoke params (fun _ => Body (JObj []))) = Fulfilled (reply None).
Proof. reflexivity. Qed.

(** get-weather is the one tool declared with a required parameter, and
    the parameter is city. *)
Lemma weather_declares_city rev d :
  In d (declared rev) ->
  required d <> [] -> tool_name d = "get-weather" /\ required d = ["city"].
Proof.
  cbn. intros [<-|[<-|[<-|[<-|[<-|[]]]]]]; cbn; done.
Qed.

(** No handler sets a deadline: while the endpoint stays silent the
    promise of a handler that fetched stays pending. *)
Lemma silent_endpoint_pending rev name h params :
  In (name, h) (registered rev) ->
  calls (h params (fun _ => Silent)) <> [] ->
  outcome (h params (fun _ => Silent)) = Pending.
Proof.
  intros Hin. cbn in Hin.
  destruct Hin as [[= <- <-]|[[= <- <-]|[[= <- <-]|[[= <- <-]|[[= <- <-]|[]]]]]];
    try done.
  destruct rev; cbn;
    unfold V1.getWeather, V2.getWeather, V3.getWeather, P0.getWeather;
    try match goal with |- context [nonempty ?c] => destruct (nonempty c) end;
    done.
Qed.

(** C3, amended: with a session open under the id of the request, the
    POST route hands the request to that session's transport instead of
    answering an error, and the get-weather handler of V1, V2 and P0,
    given no city or an empty one, fetches nothing and fulfils with one
    text block asking for the city. *)
Theorem missing_city_guidance rev net query transports t :
  rev <> RevV3 ->
  transports !! text_of query = Some t ->
  let guidance :=
    match rev with
    | RevV1 => "Please tell me which city."
    | _ => "Please specify a city name (e.g. London)."
    end in
  snd (Server.post_jokes query transports) = Server.HandlePostMessage t
  /\ getWeather rev {| city := None |} net
     = {| calls := []; outcome := Fulfilled (say guidance) |}
  /\ getWeather rev {| city := Some "" |} net
     = {| calls := []; outcome := Fulfilled (say guidance) |}.
Proof.
  intros Hrev Hopen guidance. split.
  - by rewrite (post_jokes_session _ _ t).
  - by destruct rev.
Qed.

Lemma missing_city_guidance_witness :
  getWeather RevP0 {| city := None |} (fun _ => Unreachable)
  = {| calls := [];
       outcome := Fulfilled (say "Please specify a city name (e.g. London).") |}.
Proof.
  refine (proj1 (proj2
    (missing_city_guidance RevP0 (fun _ => Unreachable) (Some "s1")
       (<["s1" := {| Server.sessionId := "s1"; Server.endpoint := "e";
                     Server.res := 0 |}]> ∅) _ _ _))).
  - discriminate.
  - apply lookup_insert_eq.
Defined.

(** C3 as stated fails in V3, whose handler has no guard: without a city
    it asks wttr.in about "undefined" and reports that, and when the
    endpoint cannot be reached it rejects. *)
Lemma V3_missing_city_unguided :
  V3.getWeather {| city := None |}
    (fun _ => Body (conditions false "Cloudy" "15" "59" "70" "10"))
  = {| calls := ["https://wttr.in/undefined?format=j1"];
       outcome := Fulfilled (say
         "Weather in undefined: Cloudy. Temp 15 °C (59 °F), Humidity 70 %, Wind 10 km/h.") |}
  /\ ~ (forall rev net,
          exists s, outcome (getWeather rev {| city := None |} net)
                    = Fulfilled (say s)).
Proof.
  split; [reflexivity|].
  intros Hall. destruct (Hall RevV3 (fun _ => Unreachable)) as [s Hs].
  discriminate Hs.
Qed.

(** P0 trims the city before the guard: white space alone (here two
    spaces, a tab and a space) is no city. *)
Lemma P0_blank_city_guidance net :
  P0.getWeather {| city := Some "  	 " |} net
  = {| calls := [];
       outcome := Fulfilled (say "Please specify a city name (e.g. London).") |}.
Proof. reflexivity. Qed.

(** The weather handlers look at the network through one URL. *)
Lemma getWeather_ext rev params net net' :
  (forall city, net (wttr city) = net' (wttr city)) ->
  getWeather rev params net = getWeather rev params net'.
Proof.
  intros Hsame.
  destruct rev; cbn;
    unfold V1.getWeather, V2.getWeather, V3.getWeather, P0.getWeather;
    try (match goal with |- context [nonempty ?c] => destruct (nonempty c) end;
         cbn; [by apply weather_try_ext | done]).
  unfold and_then, fetch_json, lift. cbn. rewrite Hsame.
  destruct (net' _) as [| | |data]; cbn; try done.
  destruct (get "current_condition" data) as [e|cc]; cbn; [done|].
  destruct (truthy (index0_opt cc)); cbn; [|done].
  by destruct (weather_text _ (index0_opt cc)).
Qed.

(** The template, on any answer of the stubbed shape and any city that
    passes the guard of the revision as it is. *)
Lemma weather_try_template msg numeric c desc temp_C temp_F humidity wind net :
  net (wttr (Some c))
  = Body (conditions numeric desc temp_C temp_F humidity wind) ->
  outcome (weather_try msg (Some c) net)
  = Fulfilled (say ("Weather in " +:+ c +:+ ": " +:+ desc +:+ ". "
                    +:+ "Temp " +:+ temp_C +:+ " °C (" +:+ temp_F +:+ " °F), "
                    +:+ "Humidity " +:+ humidity +:+ " %, Wind " +:+ wind
                    +:+ " km/h.")).
Proof.
  intros Hnet.
  unfold weather_try, try_catch, and_then, fetch_json, lift. cbn.
  rewrite Hnet. by destruct numeric.
Qed.

(** The handler by itself: with a session open under the id of the
    request, the POST route hands the request to that session's
    transport; and in each of the four revisions the get-weather
    callback, when it is called with city London while wttr.in answers
    Cloudy, 15 / 59, 70 and 10 (as strings or as numbers), fetches once
    and fulfils with exactly one text block, the sentence of the
    template. *)
Theorem weather_london rev numeric net query transports t :
  transports !! text_of query = Some t ->
  net "https://wttr.in/London?format=j1"
  = Body (conditions numeric "Cloudy" "15" "59" "70" "10") ->
  Server.post_jokes query transports = (transports, Server.HandlePostMessage t)
  /\ getWeather rev {| city := Some "London" |} net
     = {| calls := ["https://wttr.in/London?format=j1"];
          outcome := Fulfilled (reply (Some (JStr
            "Weather in London: Cloudy. Temp 15 °C (59 °F), Humidity 70 %, Wind 10 km/h."))) |}.
Proof.
  intros Hopen Hnet. split; [by apply post_jokes_session|].
  rewrite (getWeather_ext rev _ net
             (fun url => if String.eqb url "https://wttr.in/London?format=j1"
                         then Body (conditions numeric "Cloudy" "15" "59" "70" "10")
                         else net url)).
  - by destruct rev, numeric.
  - intros city.
    destruct (String.eqb_spec (wttr city) "https://wttr.in/London?format=j1")
      as [->|]; done.
Qed.

Lemma weather_london_witness :
  getWeather RevP0 {| city := Some "London" |}
    (fun _ => Body (conditions false "Cloudy" "15" "59" "70" "10"))
  = {| calls := ["https://wttr.in/London?format=j1"];
       outcome := Fulfilled (reply (Some (JStr
         "Weather in London: Cloudy. Temp 15 °C (59 °F), Humidity 70 %, Wind 10 km/h."))) |}.
Proof.
  refine (proj2
    (weather_london RevP0 false _ (Some "s1")
       (<["s1" := {| Server.sessionId := "s1"; Server.endpoint := "e";
                     Server.res := 0 |}]> ∅) _ _ _)).
  - apply lookup_insert_eq.
  - reflexivity.
Defined.

(** C9 as stated fails for the joke handlers, which pass on whatever the
    upstream property holds: a number here. *)
Lemma getChuckJoke_number_payload :
  outcome (getChuckJoke {| city := None |}
             (fun _ => Body (JObj [("value", JNum "42")])))
  = Fulfilled (reply (Some (JNum "42")))
  /\ ~ (forall rev name h params net result,
          In (name, h) (registered rev) ->
          outcome (h params net) = Fulfilled result ->
          one_string_block result).
Proof.
  split; [reflexivity|].
  intros Hall.
  destruct (Hall RevV1 "get-chuck-joke" getChuckJoke {| city := None |}
              (fun _ => Body (JObj [("value", JNum "42")]))
              (reply (Some (JNum "42")))) as [s Hs].
  - cbn. by left.
  - reflexivity.
  - discriminate Hs.
Qed.

(** What a joke handler fulfils with: the named property of the body. *)
Lemma joke_passes_property url key net result :
  outcome ((let! data := fetch_json url in
            let! v := lift (get key data) in
            pure (reply v)) net) = Fulfilled result ->
  exists data v, net url = Body data /\ get key data = inr v
                 /\ result = reply v.
Proof.
  unfold and_then, fetch_json, lift. cbn.
  destruct (net url) as [| | |data]; cbn; try done.
  destruct (get key data) as [e|v] eqn:Hget; cbn; [done|].
  intros [= <-]. eauto.
Qed.

(** C9, amended: whatever a registered handler fulfils with has exactly
    one block, of type text.  For get-chuck-categories and get-weather
    the payload is a string on every path; for the three joke tools it
    is the value or joke property of the upstream body, handed on as it
    came, a string only if upstream sent one. *)
Theorem handlers_return_one_text_block rev name h params net result :
  In (name, h) (registered rev) ->
  outcome (h params net) = Fulfilled result ->
  exists v,
    content result = [ {| type := "text"; text := v |} ]
    /\ (name = "get-chuck-categories" \/ name = "get-weather" ->
        one_string_block result)
    /\ (name = "get-chuck-joke" ->
        exists data, net "https://api.chucknorris.io/jokes/random" = Body data
                     /\ get "value" data = inr v)
    /\ (name = "get-dad-joke" ->
        exists data, net "https://icanhazdadjoke.com/" = Body data
                     /\ get "joke" data = inr v)
    /\ (name = "get-yo-mama-joke" ->
        exists data,
          net "https://www.yomama-jokes.com/api/v1/jokes/random" = Body data
          /\ get "joke" data = inr v).
Proof.
  intros Hin Hdone. cbn in Hin.
  destruct Hin as [[= <- <-]|[[= <- <-]|[[= <- <-]|[[= <- <-]|[[= <- <-]|[]]]]]].
  - apply joke_passes_property in Hdone as (data & v & Hnet & Hget & ->).
    exists v. repeat split; try done; eauto. by intros [|].
  - revert Hdone. unfold getChuckCategories, and_then, fetch_json, lift. cbn.
    destruct (net _) as [| | |data]; cbn; try done.
    destruct (join ", " data) as [e|joined]; cbn; [done|].
    intros [= <-]. exists (Some (JStr joined)).
    repeat split; try done. intros _. by exists joined.
  - apply joke_passes_property in Hdone as (data & v & Hnet & Hget & ->).
    exists v. repeat split; try done; eauto. by intros [|].
  - apply joke_passes_property in Hdone as (data & v & Hnet & Hget & ->).
    exists v. repeat split; try done; eauto. by intros [|].
  - assert (Hsay : exists s, result = say s).
    { revert Hdone. destruct rev; cbn;
        unfold V1.getWeather, V2.getWeather, V3.getWeather, P0.getWeather;
        try (match goal with
             | |- context [nonempty ?c] => destruct (nonempty c)
             end; cbn;
             [ match goal with
               | |- context [weather_try ?m ?c ?n] =>
                   destruct (weather_try_settles m c n) as [Hp|[s Hs]]
               end; [rewrite Hp; done | rewrite Hs; intros [= <-]; eauto]
             | intros [= <-]; eauto ]).
      unfold and_then, fetch_json, lift, apology. cbn.
      destruct (net _) as [| | |data]; cbn; try done.
      destruct (get "current_condition" data) as [e|cc]; cbn; [done|].
      destruct (truthy (index0_opt cc)); cbn; [|intros [= <-]; eauto].
      destruct (weather_text _ (index0_opt cc)); cbn; [done|].
      intros [= <-]; eauto. }
    destruct Hsay as [s ->]. exists (Some (JStr s)).
    repeat split; try done. intros _. by exists s.
Qed.

Lemma handlers_return_one_text_block_witness :
  exists v,
    content (reply (Some (JNum "42"))) = [ {| type := "text"; text := v |} ]
    /\ get "value" (JObj [("value", JNum "42")]) = inr v.
Proof.
  destruct (handlers_return_one_text_block RevV1 "get-chuck-joke"
              getChuckJoke {| city := None |}
              (fun _ => Body (JObj [("value", JNum "42")]))
              (reply (Some (JNum "42"))))
    as (v & Hcontent & _ & Hjoke & _).
  - cbn. by left.
  - reflexivity.
  - exists v. split; [exact Hcontent|].
    destruct (Hjoke eq_refl) as (data & Hnet & Hget).
    injection Hnet as <-. exact Hget.
Defined.

End Handlers.


(** * More on the plumbing: the life of a session *)

Section Sessions.
Import Js Server.

Implicit Types (transports : Registry) (t : SSEServerTransport)
  (key id : string) (query host : option string) (events : list Event).

Lemma get_sse_stream host r fresh transports :
  get_sse host r fresh transports
  = (<[fresh := stream host r fresh]> transports,
     Connect (stream host r fresh)).
Proof. reflexivity. Qed.

(** Events that neither open a stream under [id] nor close a session
    with that id leave the entry of [id] alone. *)
Lemma run_keeps_entry events transports id :
  Forall (fun e => opens id e = false /\ closes id e = false) events ->
  run events transports !! id = transports !! id.
Proof.
  induction events as [|e events IH] using rev_ind; intros Hev; [done|].
  apply Forall_app in Hev as [Hev He]. apply Forall_inv in He as [Ho Hc].
  rewrite run_snoc, step_lookup_ne; [by apply IH| |].
  - intros host r ->. cbn in Ho. by rewrite String.eqb_refl in Ho.
  - intros t ->. cbn in Hc. by apply String.eqb_neq in Hc.
Qed.

(** Every entry of the table was put there by a GET /sse of the history,
    under the id of the transport it holds. *)
Lemma history_entry events key t :
  run events ∅ !! key = Some t ->
  exists host r, In (GetSse host r key) events /\ t = stream host r key.
Proof.
  revert t. induction events as [|e events IH] using rev_ind; intros t Hin.
  - cbn in Hin. by rewrite lookup_empty in Hin.
  - rewrite run_snoc in Hin.
    assert (Hold : forall t', run events ∅ !! key = Some t' ->
              exists host r, In (GetSse host r key) (events ++ [e])
                             /\ t' = stream host r key).
    { intros t' Ht'. destruct (IH t' Ht') as (host & r & Hev & ->).
      exists host, r. split; [|done]. apply in_or_app. by left. }
    destruct e as [host r fresh|query| |t0]; cbn in Hin.
    + destruct (decide (fresh = key)) as [->|Hne].
      * rewrite lookup_insert_eq in Hin. injection Hin as <-.
        exists host, r. split; [|done]. apply in_or_app. right. by left.
      * rewrite lookup_insert_ne in Hin by done. by apply Hold.
    + apply Hold. revert Hin. unfold post_jokes. by destruct (read _ _).
    + by apply Hold.
    + apply Hold. unfold on_close in Hin.
      apply lookup_delete_Some in Hin. by destruct Hin.
Qed.

(** X1.  On a server started with an empty table, a POST is only ever handed
    to the transport of the very session it names: the transport was
    built by a GET /sse of the history that drew the id of the request,
    and carries that id, the endpoint made from the Host header of that
    GET, and its response. *)
Theorem post_jokes_own_session events query t :
  snd (post_jokes query (run events ∅)) = HandlePostMessage t ->
  exists host r,
    In (GetSse host r (text_of query)) events
    /\ t = stream host r (text_of query)
    /\ sessionId t = text_of query.
Proof.
  unfold post_jokes, read.
  destruct (run events ∅ !! text_of query) as [t'|] eqn:Hk;
    [|by destruct (inherited (text_of query))].
  cbn. intros [= <-].
  destruct (history_entry _ _ _ Hk) as (host & r & Hev & ->).
  by exists host, r.
Qed.

Lemma post_jokes_own_session_witness :
  exists host r,
    In (GetSse host r "s1") [GetSse (Some "a") 0 "s1"; GetRoot]
    /\ stream (Some "a") 0 "s1" = stream host r "s1"
    /\ sessionId (stream (Some "a") 0 "s1") = "s1".
Proof.
  apply (post_jokes_own_session [GetSse (Some "a") 0 "s1"; GetRoot] (Some "s1")).
  vm_compute. reflexivity.
Defined.

(** X2.  Open, then post: once GET /sse has run, and for as long as no other
    stream is opened under the id and the session's connection stays
    open, a POST with the id is handed to the transport of that very
    GET, whatever else was registered under the id before. *)
Theorem get_sse_then_post host r fresh transports events :
  Forall (fun e => opens fresh e = false /\ closes fresh e = false) events ->
  snd (post_jokes (Some fresh)
         (run events (fst (get_sse host r fresh transports))))
  = HandlePostMessage (stream host r fresh).
Proof.
  intros Hev. unfold post_jokes.
  rewrite (read_own _ _ (stream host r fresh)); [done|].
  rewrite run_keeps_entry by done. cbn. apply lookup_insert_eq.
Qed.

Lemma get_sse_then_post_witness :
  snd (post_jokes (Some "s1")
         (run [GetSse None 1 "s2"; PostJokes None; Close (stream None 1 "s2")]
            (fst (get_sse (Some "a") 0 "s1" ∅))))
  = HandlePostMessage (stream (Some "a") 0 "s1").
Proof.
  apply (get_sse_then_post (Some "a") 0 "s1" ∅).
  repeat constructor.
Defined.

Set Warnings "-clear-no-such-hyp".

Lemma opened_snoc events e :
  opened (events ++ [e])
  = (opened events
     ++ match e with GetSse _ _ fresh => [fresh] | _ => [] end)%list.
Proof. unfold opened. rewrite flat_map_app. cbn. by rewrite app_nil_r. Qed.

Lemma get_sse_opened host r key events :
  In (GetSse host r key) events -> In key (opened events).
Proof.
  intros Hev. unfold opened. apply in_flat_map.
  exists (GetSse host r key). split; [done|]. by left.
Qed.

(** X3.  The table never holds more sessions than it started with plus one
    per GET /sse, and it holds no id but those it started with and those
    the GETs drew. *)
Theorem registry_bounded_by_opens events transports :
  size (run events transports) <= size transports + length (opened events)
  /\ dom (run events transports)
     ⊆ dom transports ∪ list_to_set (opened events).
Proof.
  induction events as [|e events [IHsize IHdom]] using rev_ind.
  - cbn. split; [lia|set_solver].
  - rewrite run_snoc, opened_snoc, length_app, list_to_set_app_L.
    destruct e as [host r fresh|query| |t]; cbn.
    + split.
      * pose proof (map_size_insert fresh (stream host r fresh)
                      (run events transports)) as Hsz.
        unfold stream in Hsz. cbn in Hsz.
        destruct (run events transports !! fresh); unfold id in Hsz; lia.
      * rewrite dom_insert_L. set_solver.
    + replace (fst (post_jokes query (run events transports)))
        with (run events transports)
        by (unfold post_jokes; by destruct (read _ _)).
      split; [lia|set_solver].
    + split; [lia|set_solver].
    + unfold on_close. split.
      * pose proof (map_size_delete (sessionId t) (run events transports)) as Hsz.
        destruct (run events transports !! sessionId t); unfold id in Hsz; lia.
      * rewrite dom_delete_L. set_solver.
Qed.

Lemma run_closes_lookup (ts : list SSEServerTransport) transports key :
  run (map Close ts) transports !! key
  = if bool_decide (key ∈ map sessionId ts) then None else transports !! key.
Proof.
  revert transports. induction ts as [|t ts IH]; intros transports; [done|].
  cbn. change (foldl _ _ _) with (run (map Close ts) (on_close t transports)).
  rewrite IH. unfold on_close.
  destruct (decide (sessionId t = key)) as [<-|Hne].
  - rewrite lookup_delete_eq.
    rewrite (bool_decide_eq_true_2 (sessionId t ∈ _ :: _))
      by apply list_elem_of_here.
    by destruct (bool_decide _).
  - rewrite lookup_delete_ne by done.
    apply (f_equal (fun b : bool => if b then None else transports !! key)).
    apply bool_decide_ext. rewrite elem_of_cons. naive_solver.
Qed.

(** X4.  Once the connection of every registered session has closed, in
    whatever order and however often, the table is empty again. *)
Theorem all_closed_empties_registry (ts : list SSEServerTransport) transports :
  (forall key, is_Some (transports !! key) -> In key (map sessionId ts)) ->
  run (map Close ts) transports = ∅.
Proof.
  intros Hall. apply map_eq. intros key.
  rewrite run_closes_lookup, lookup_empty.
  case_bool_decide as Hin; [done|].
  destruct (transports !! key) as [t|] eqn:Hk; [|done].
  exfalso. apply Hin. apply list_elem_of_In. apply Hall. by rewrite Hk.
Qed.

Lemma all_closed_empties_registry_witness :
  run (map Close [stream None 1 "s2"; stream (Some "a") 0 "s1";
                  stream None 1 "s2"])
      (run [GetSse (Some "a") 0 "s1"; GetSse None 1 "s2"] ∅)
  = ∅.
Proof.
  apply all_closed_empties_registry.
  intros key [t Hk].
  destruct (history_entry _ _ _ Hk) as (host & r & [Hev|[Hev|[]]] & _);
    injection Hev as _ _ <-; cbn; tauto.
Defined.

(** X5.  A POST without a sessionId parameter is looked up under the key
    "undefined": unless a stream was opened under that very id, it is
    answered 400 like any unknown session, and nothing is dispatched. *)
Theorem post_jokes_without_id events :
  ~ In "undefined" (opened events) ->
  post_jokes None (run events ∅)
  = (run events ∅, Send 400 "No transport found for sessionId").
Proof.
  intros Hnot. apply post_jokes_unknown; [|done]. cbn.
  destruct (run events ∅ !! "undefined") as [t|] eqn:Hk; [|done].
  destruct (history_entry _ _ _ Hk) as (host & r & Hev & _).
  exfalso. apply Hnot. by eapply get_sse_opened.
Qed.

Lemma post_jokes_without_id_witness :
  snd (post_jokes None (run [GetSse (Some "a") 0 "s1"] ∅))
  = Send 400 "No transport found for sessionId".
Proof.
  rewrite (post_jokes_without_id [GetSse (Some "a") 0 "s1"]); [done|].
  cbn. intros [Heq|[]]. discriminate Heq.
Defined.

End Sessions.


(** * More on the handlers *)

Section Answers.
Import Js Tools.

Implicit Types (net : Net) (params : Params) (rev : Revision)
  (city : option string) (result : ToolResult) (data : JSON).

(** The guarded body, by what the endpoint does. *)
Lemma weather_try_body msg city net data :
  net (wttr city) = Body data ->
  outcome (weather_try msg city net)
  = match get "current_condition" data with
    | inr cc =>
        if truthy (index0_opt cc)
        then match weather_text city (index0_opt cc) with
             | inr text => Fulfilled (say text)
             | inl _ => Fulfilled (apology city)
             end
        else Fulfilled (apology city)
    | inl _ => Fulfilled (apology city)
    end.
Proof.
  intros Hnet.
  unfold weather_try, try_catch, and_then, fetch_json, lift. cbn.
  rewrite Hnet. cbn.
  destruct (get "current_condition" data) as [e|cc]; cbn; [done|].
  destruct (truthy (index0_opt cc)); cbn; [|done].
  by destruct (weather_text city (index0_opt cc)).
Qed.

(** A revision with a guard runs the guarded body on the city it sees. *)
Lemma guarded_runs_weather_try rev params :
  rev <> RevV3 ->
  nonempty (seen_city rev params) = true ->
  exists msg, getWeather rev params = weather_try msg (seen_city rev params).
Proof.
  intros Hrev Hcity. destruct rev; try done; cbn in *;
    unfold V1.getWeather, V2.getWeather, P0.getWeather;
    rewrite Hcity; cbn; eauto.
Qed.

(** X6.  At most one upstream call per invocation, and only to the four fixed
    joke URLs or to wttr.in with the encoded city. *)
Theorem one_upstream_call rev name h params net :
  In (name, h) (registered rev) ->
  length (calls (h params net)) <= 1
  /\ Forall (fun url => In url joke_urls \/ url = wttr (seen_city rev params))
       (calls (h params net)).
Proof.
  intros Hin. cbn in Hin.
  destruct Hin as [[= <- <-]|[[= <- <-]|[[= <- <-]|[[= <- <-]|[[= <- <-]|[]]]]]].
  1-4: unfold getChuckJoke, getChuckCategories, getDadJoke, getYoMamaJoke,
         and_then, fetch_json, lift; cbn;
       destruct (net _) as [| | |data]; cbn;
       try (split; [lia|repeat constructor; cbn; tauto]);
       match goal with
       | |- context [get ?k data] => destruct (get k data)
       | |- context [join ?k data] => destruct (join k data)
       end; cbn; split; try lia; repeat constructor; cbn; tauto.
  destruct rev; cbn;
    unfold V1.getWeather, V2.getWeather, V3.getWeather, P0.getWeather;
    try (match goal with |- context [nonempty ?c] => destruct (nonempty c) end;
         cbn; [rewrite weather_try_calls; cbn; split; [lia|];
               repeat constructor; by right
              | split; [lia|constructor]]).
  unfold and_then, fetch_json, lift. cbn.
  destruct (net _) as [| | |data]; cbn;
    try (split; [lia|repeat constructor; by right]).
  destruct (get "current_condition" data) as [e|cc]; cbn;
    [split; [lia|repeat constructor; by right]|].
  destruct (truthy (index0_opt cc)); cbn;
    [|split; [lia|repeat constructor; by right]].
  destruct (weather_text _ (index0_opt cc)); cbn;
    split; try lia; repeat constructor; by right.
Qed.

Lemma one_upstream_call_witness :
  length (calls (getWeather RevP0 {| city := Some " Oslo " |}
                   (fun _ => Unreachable))) <= 1.
Proof.
  refine (proj1 (one_upstream_call RevP0 "get-weather" (getWeather RevP0)
                   {| city := Some " Oslo " |} (fun _ => Unreachable) _)).
  cbn. tauto.
Defined.

(** X7.  With a guard and a try, get-weather always answers in one sentence:
    given a city that is a string, or no city, and unless the endpoint
    stays silent for ever, its promise fulfils with one text block
    holding a string, whatever comes back. *)
Theorem guarded_weather_answers rev params net :
  rev <> RevV3 ->
  (forall url, net url <> Silent) ->
  exists s, outcome (getWeather rev params net) = Fulfilled (say s).
Proof.
  intros Hrev Hloud.
  destruct (nonempty (seen_city rev params)) eqn:Hcity.
  - destruct (guarded_runs_weather_try rev params Hrev Hcity) as [msg ->].
    destruct (weather_try_settles msg (seen_city rev params) net)
      as [Hp|Hs]; [|done].
    exfalso. revert Hp.
    unfold weather_try, try_catch, and_then, fetch_json, lift. cbn.
    specialize (Hloud (wttr (seen_city rev params))).
    destruct (net _) as [| | |data]; cbn; try done.
    destruct (get "current_condition" data) as [e|cc]; cbn; [done|].
    destruct (truthy (index0_opt cc)); cbn; [|done].
    by destruct (weather_text _ (index0_opt cc)).
  - destruct rev; try done; cbn in *;
      unfold V1.getWeather, V2.getWeather, P0.getWeather;
      rewrite Hcity; cbn; eauto.
Qed.

Lemma guarded_weather_answers_witness :
  exists s, outcome (getWeather RevV1 {| city := Some "Oslo" |}
                       (fun _ => Body (JObj [("toString", JNull)])))
            = Fulfilled (say s).
Proof.
  apply guarded_weather_answers; discriminate.
Defined.

(** X8.  When no report can be made (endpoint not reached, body not JSON,
    body null, no truthy first current condition, or a field that cannot
    be printed) a guarded get-weather apologises, naming the city as it
    saw it. *)
Theorem guarded_weather_apologises rev params net :
  rev <> RevV3 ->
  nonempty (seen_city rev params) = true ->
  let city := seen_city rev params in
  net (wttr city) = Unreachable \/ net (wttr city) = NotJson
  \/ (exists data, net (wttr city) = Body data
        /\ forall cc text, get "current_condition" data = inr cc ->
             truthy (index0_opt cc) = true ->
             weather_text city (index0_opt cc) <> inr text) ->
  getWeather rev params net
  = {| calls := [wttr city]; outcome := Fulfilled (apology city) |}.
Proof.
  intros Hrev Hcity city Hfail.
  destruct (guarded_runs_weather_try rev params Hrev Hcity) as [msg ->].
  fold city.
  pose proof (weather_try_calls msg city net) as Hcalls.
  assert (Hout : outcome (weather_try msg city net) = Fulfilled (apology city)).
  { destruct Hfail as [Hnet|[Hnet|(data & Hnet & Hno)]].
    - apply weather_try_apologises. by left.
    - apply weather_try_apologises. right. by left.
    - rewrite (weather_try_body msg city net data Hnet).
      destruct (get "current_condition" data) as [e|cc]; [done|].
      destruct (truthy (index0_opt cc)) eqn:Ht; [|done].
      destruct (weather_text city (index0_opt cc)) as [e|text] eqn:Hw; [done|].
      by destruct (Hno cc text). }
  destruct (weather_try msg city net) as [c o]. cbn in *. by subst.
Qed.

Lemma guarded_weather_apologises_witness :
  getWeather RevP0 {| city := Some " Oslo " |}
    (fun _ => Body (JObj [("current_condition", JArr [])]))
  = {| calls := ["https://wttr.in/Oslo?format=j1"];
       outcome := Fulfilled (say "Sorry—couldn’t fetch weather for “Oslo”.") |}.
Proof.
  apply (guarded_weather_apologises RevP0 {| city := Some " Oslo " |}).
  - discriminate.
  - reflexivity.
  - right. right. eexists. split; [reflexivity|].
    intros cc text [= <-]. discriminate.
Defined.

(** The message of the Error that the guarded body throws to itself is
    never seen: the catch clause drops it. *)
Lemma weather_try_message msg msg' city net :
  weather_try msg city net = weather_try msg' city net.
Proof.
  unfold weather_try, try_catch, and_then, fetch_json, lift. cbn.
  destruct (net (wttr city)) as [| | |data]; cbn; try done.
  destruct (get "current_condition" data) as [e|cc]; cbn; [done|].
  destruct (truthy (index0_opt cc)); cbn; [|done].
  by destruct (weather_text city (index0_opt cc)).
Qed.

(** X9.  The first two revisions of get-weather differ in their guidance
    sentence only: given a city they run alike, calls and result. *)
Theorem V1_V2_same_given_city params net :
  nonempty (city params) = true ->
  V1.getWeather params net = V2.getWeather params net.
Proof.
  intros Hcity. unfold V1.getWeather, V2.getWeather. rewrite Hcity. cbn.
  apply weather_try_message.
Qed.

Lemma V1_V2_same_given_city_witness :
  V1.getWeather {| city := Some "Oslo" |} (fun _ => Body (JObj []))
  = V2.getWeather {| city := Some "Oslo" |} (fun _ => Body (JObj [])).
Proof. by apply V1_V2_same_given_city. Defined.

(** X10.  What dropping the try in the third revision changed, for a given
    city: the same single call; where the third revision fulfils, the
    guarded ones fulfil with the same result; where it stays pending, so
    do they; and where it rejects, they apologise. *)
Theorem V3_against_guarded params net :
  nonempty (city params) = true ->
  calls (V3.getWeather params net) = calls (V2.getWeather params net)
  /\ match outcome (V3.getWeather params net) with
     | Fulfilled result =>
         outcome (V2.getWeather params net) = Fulfilled result
     | Pending => outcome (V2.getWeather params net) = Pending
     | Rejected _ =>
         outcome (V2.getWeather params net) = Fulfilled (apology (city params))
     end.
Proof.
  intros Hcity. unfold V2.getWeather. rewrite Hcity. cbn.
  rewrite weather_try_calls.
  unfold V3.getWeather, weather_try, try_catch, and_then, fetch_json, lift.
  cbn.
  destruct (net (wttr (city params))) as [| | |data]; cbn; try done.
  destruct (get "current_condition" data) as [e|cc]; cbn; [done|].
  destruct (truthy (index0_opt cc)); cbn; [|done].
  by destruct (weather_text (city params) (index0_opt cc)).
Qed.

Lemma V3_against_guarded_witness :
  outcome (V2.getWeather {| city := Some "Oslo" |} (fun _ => NotJson))
  = Fulfilled (apology (Some "Oslo")).
Proof.
  exact (proj2 (V3_against_guarded {| city := Some "Oslo" |}
                  (fun _ => NotJson) eq_refl)).
Defined.

(** X11.  The report on a real answer: for whatever else the body holds, when
    the first current condition is an object whose five fields are
    strings (the description being the value of the first weatherDesc
    entry), every revision fetches once and fulfils with the template
    filled with the city it saw and those strings. *)
Theorem weather_report rev params net top fields more dfields dmore
    desc tempC tempF humidity wind :
  nonempty (seen_city rev params) = true ->
  let city := seen_city rev params in
  net (wttr city) = Body (JObj top) ->
  own "current_condition" top = Some (JArr (JObj fields :: more)) ->
  own "weatherDesc" fields = Some (JArr (JObj dfields :: dmore)) ->
  own "value" dfields = Some (JStr desc) ->
  own "temp_C" fields = Some (JStr tempC) ->
  own "temp_F" fields = Some (JStr tempF) ->
  own "humidity" fields = Some (JStr humidity) ->
  own "windspeedKmph" fields = Some (JStr wind) ->
  getWeather rev params net
  = {| calls := [wttr city];
       outcome := Fulfilled (say
         ("Weather in " +:+ text_of city +:+ ": " +:+ desc +:+ ". "
          +:+ "Temp " +:+ tempC +:+ " °C (" +:+ tempF +:+ " °F), "
          +:+ "Humidity " +:+ humidity +:+ " %, Wind " +:+ wind
          +:+ " km/h.")) |}.
Proof.
  intros Hcity city Hnet Hcc Hwd Hval HtC HtF Hhum Hwind.
  assert (Htext : weather_text city (Some (JObj fields))
          = inr ("Weather in " +:+ text_of city +:+ ": " +:+ desc +:+ ". "
                 +:+ "Temp " +:+ tempC +:+ " °C (" +:+ tempF +:+ " °F), "
                 +:+ "Humidity " +:+ humidity +:+ " %, Wind " +:+ wind
                 +:+ " km/h.")).
  { unfold weather_text. cbn. rewrite Hwd. cbn. rewrite Hval, HtC, HtF, Hhum, Hwind.
    reflexivity. }
  assert (rev = RevV3 \/ rev <> RevV3) as [->|Hrev]
    by (destruct rev; (by left) || (by right)).
  - subst city.
    change (seen_city RevV3 params) with (Tools.city params) in *.
    change (getWeather RevV3) with V3.getWeather.
    unfold V3.getWeather, and_then, fetch_json, lift. cbn.
    rewrite Hnet. cbn. rewrite Hcc. cbn. by rewrite Htext.
  - destruct (guarded_runs_weather_try rev params Hrev Hcity) as [msg ->].
    fold city.
    pose proof (weather_try_calls msg city net) as Hcalls.
    pose proof (weather_try_body msg city net _ Hnet) as Hout.
    cbn in Hout. rewrite Hcc in Hout. cbn in Hout. rewrite Htext in Hout.
    destruct (weather_try msg city net) as [c o]. cbn in *. by subst.
Qed.

Lemma weather_report_witness :
  getWeather RevV3 {| city := Some "New York" |}
    (fun _ => Body (JObj
       [("nearest_area", JArr []);
        ("current_condition",
         JArr [JObj [("FeelsLikeC", JStr "3"); ("temp_C", JStr "5");
                     ("temp_F", JStr "41"); ("humidity", JStr "80");
                     ("windspeedKmph", JStr "7");
                     ("weatherDesc",
                      JArr [JObj [("value", JStr "Rain")]])]])]))
  = {| calls := ["https://wttr.in/New%20York?format=j1"];
       outcome := Fulfilled (say
         "Weather in New York: Rain. Temp 5 °C (41 °F), Humidity 80 %, Wind 7 km/h.") |}.
Proof.
  apply (weather_report RevV3 {| city := Some "New York" |} _
           [("nearest_area", JArr []);
            ("current_condition",
             JArr [JObj [("FeelsLikeC", JStr "3"); ("temp_C", JStr "5");
                         ("temp_F", JStr "41"); ("humidity", JStr "80");
                         ("windspeedKmph", JStr "7");
                         ("weatherDesc",
                          JArr [JObj [("value", JStr "Rain")]])]])]
           [("FeelsLikeC", JStr "3"); ("temp_C", JStr "5");
            ("temp_F", JStr "41"); ("humidity", JStr "80");
            ("windspeedKmph", JStr "7");
            ("weatherDesc", JArr [JObj [("value", JStr "Rain")]])]
           [] [("value", JStr "Rain")] []
           "Rain" "5" "41" "80" "7");
    reflexivity.
Defined.

Lemma join_strings sep (names : list string) :
  join_with toString sep (map JStr names) = Some (String.concat sep names).
Proof.
  induction names as [|name names IH]; [done|].
  cbn [map join_with]. destruct names as [|name' names]; [done|].
  cbn [map] in *. rewrite IH. reflexivity.
Qed.

(** X12.  get-chuck-categories on the answer it expects, an array of strings:
    one call, and one text block holding the names separated by a comma
    and a space (the empty text for the empty array). *)
Theorem categories_joined params net (names : list string) :
  net "https://api.chucknorris.io/jokes/categories"
  = Body (JArr (map JStr names)) ->
  getChuckCategories params net
  = {| calls := ["https://api.chucknorris.io/jokes/categories"];
       outcome := Fulfilled (say (String.concat ", " names)) |}.
Proof.
  intros Hnet.
  unfold getChuckCategories, and_then, fetch_json, lift, join. cbn.
  rewrite Hnet. cbn. by rewrite join_strings.
Qed.

Lemma categories_joined_witness :
  getChuckCategories {| city := None |}
    (fun _ => Body (JArr [JStr "animal"; JStr "career"; JStr "dev"]))
  = {| calls := ["https://api.chucknorris.io/jokes/categories"];
       outcome := Fulfilled (say "animal, career, dev") |}.
Proof.
  apply (categories_joined _ _ ["animal"; "career"; "dev"]). reflexivity.
Defined.

(** X13.  get-chuck-categories on any other body (an object, a string, a
    number, null): there is no join to call, and with no catch around
    it the promise rejects with the TypeError. *)
Theorem categories_not_an_array params net data :
  net "https://api.chucknorris.io/jokes/categories" = Body data ->
  (forall items, data <> JArr items) ->
  outcome (getChuckCategories params net) = Rejected TypeError.
Proof.
  intros Hnet Hshape.
  unfold getChuckCategories, and_then, fetch_json, lift, join. cbn.
  rewrite Hnet. cbn. destruct data as [| | | |items|]; try done.
  by destruct (Hshape items).
Qed.

Lemma categories_not_an_array_witness :
  outcome (getChuckCategories {| city := None |}
             (fun _ => Body (JObj [("error", JStr "Too Many Requests")])))
  = Rejected TypeError.
Proof.
  apply (categories_not_an_array _ _ (JObj [("error", JStr "Too Many Requests")])).
  - reflexivity.
  - discriminate.
Defined.

(** X14.  The three joke handlers look at nothing but the one property: on
    every parsed body other than null (an error object, an array, a bare
    number) the promise fulfils, with the property if the body is an
    object that has it and with undefined otherwise. *)
Theorem jokes_accept_any_body params net data :
  data <> JNull ->
  (net "https://api.chucknorris.io/jokes/random" = Body data ->
   outcome (getChuckJoke params net)
   = Fulfilled (reply (get_opt "value" (Some data))))
  /\ (net "https://icanhazdadjoke.com/" = Body data ->
      outcome (getDadJoke params net)
      = Fulfilled (reply (get_opt "joke" (Some data))))
  /\ (net "https://www.yomama-jokes.com/api/v1/jokes/random" = Body data ->
      outcome (getYoMamaJoke params net)
      = Fulfilled (reply (get_opt "joke" (Some data)))).
Proof.
  intros Hdata.
  repeat split; intros Hnet;
    unfold getChuckJoke, getDadJoke, getYoMamaJoke, and_then, fetch_json, lift;
    cbn; rewrite Hnet; cbn; by destruct data.
Qed.

Lemma jokes_accept_any_body_witness :
  outcome (getDadJoke {| city := None |}
             (fun _ => Body (JObj [("status", JNum "404")])))
  = Fulfilled (reply None).
Proof.
  refine (proj1 (proj2 (jokes_accept_any_body {| city := None |}
                          (fun _ => Body (JObj [("status", JNum "404")]))
                          (JObj [("status", JNum "404")]) _)) _).
  - discriminate.
  - reflexivity.
Defined.

End Answers.


(** * The strings that go into the weather request *)

Section Strings.
Import Js Tools.

Implicit Types (s : string) (l : list ascii) (c : ascii).

Lemma chars_append s1 s2 :
  list_ascii_of_string (s1 +:+ s2)
  = (list_ascii_of_string s1 ++ list_ascii_of_string s2)%list.
Proof. induction s1 as [|c s1 IH]; simpl; [done|]. f_equal. apply IH. Qed.

Lemma chars_inj s1 s2 :
  list_ascii_of_string s1 = list_ascii_of_string s2 -> s1 = s2.
Proof.
  intros Heq. rewrite <- (string_of_list_ascii_of_string s1),
    <- (string_of_list_ascii_of_string s2). by rewrite Heq.
Qed.

Lemma append_inv_tail s1 s2 tail : s1 +:+ tail = s2 +:+ tail -> s1 = s2.
Proof.
  intros Heq. apply chars_inj.
  apply (f_equal list_ascii_of_string) in Heq.
  rewrite !chars_append in Heq. by apply app_inv_tail in Heq.
Qed.

(** *** encodeURIComponent *)

Lemma hex_digit_high c :
  unreserved (hex_digit (N_of_ascii c / 16)) = true
  /\ hex_value (hex_digit (N_of_ascii c / 16)) = (N_of_ascii c / 16)%N.
Proof. destruct c as [[] [] [] [] [] [] [] []]; vm_compute; done. Qed.

Lemma hex_digit_low c :
  unreserved (hex_digit (N_of_ascii c mod 16)) = true
  /\ hex_value (hex_digit (N_of_ascii c mod 16)) = (N_of_ascii c mod 16)%N.
Proof. destruct c as [[] [] [] [] [] [] [] []]; vm_compute; done. Qed.

Lemma encoded_chars s ch :
  In ch (list_ascii_of_string (encodeURIComponent s)) ->
  unreserved ch = true \/ ch = "%"%char.
Proof.
  induction s as [|c s IH]; cbn; [done|].
  destruct (unreserved c) eqn:Hc; cbn.
  - intros [<-|Hin]; [by left|by apply IH].
  - intros [<-|[<-|[<-|Hin]]]; [by right| | |by apply IH]; left.
    + apply hex_digit_high.
    + apply hex_digit_low.
Qed.

Lemma escaped_inj c1 c2 :
  hex_digit (N_of_ascii c1 / 16) = hex_digit (N_of_ascii c2 / 16) ->
  hex_digit (N_of_ascii c1 mod 16) = hex_digit (N_of_ascii c2 mod 16) ->
  c1 = c2.
Proof.
  intros Hhigh Hlow.
  apply (f_equal hex_value) in Hhigh, Hlow.
  rewrite !(proj2 (hex_digit_high _)) in Hhigh.
  rewrite !(proj2 (hex_digit_low _)) in Hlow.
  rewrite <- (ascii_N_embedding c1), <- (ascii_N_embedding c2).
  f_equal.
  rewrite (N.div_mod (N_of_ascii c1) 16), (N.div_mod (N_of_ascii c2) 16) by done.
  by rewrite Hhigh, Hlow.
Qed.

Lemma encodeURIComponent_inj s1 s2 :
  encodeURIComponent s1 = encodeURIComponent s2 -> s1 = s2.
Proof.
  revert s2. induction s1 as [|c1 s1 IH]; intros [|c2 s2]; cbn.
  - done.
  - by destruct (unreserved c2).
  - by destruct (unreserved c1).
  - destruct (unreserved c1) eqn:H1, (unreserved c2) eqn:H2.
    + intros [= -> Hrest]. f_equal. by apply IH.
    + intros [= -> _]. discriminate H1.
    + intros [= <- _]. discriminate H2.
    + intros [= Hhigh Hlow Hrest]. f_equal; [by apply escaped_inj|by apply IH].
Qed.

(** X15.  The request always goes to the host wttr.in, path of one segment,
    query format=j1: between the fixed head and tail of the URL stand
    only unreserved characters and percent escapes, whatever the city,
    so that no slash, question mark, hash, ampersand or blank of the
    city reaches the URL as such. *)
Theorem wttr_url_shape (city : option string) :
  exists segment,
    wttr city = "https://wttr.in/" +:+ segment +:+ "?format=j1"
    /\ Forall (fun ch => (unreserved ch = true \/ ch = "%"%char)
                         /\ ~ In ch (list_ascii_of_string "/?#&=+:@ "))
         (list_ascii_of_string segment).
Proof.
  exists (encodeURIComponent (text_of city)). split; [done|].
  apply Forall_forall. intros ch Hin.
  apply list_elem_of_In, encoded_chars in Hin. split; [done|].
  intros Hbad. cbn in Hbad.
  destruct Hin as [Hin| ->].
  - repeat (destruct Hbad as [<-|Hbad]; [discriminate Hin|]). done.
  - repeat (destruct Hbad as [Hbad|Hbad]; [discriminate Hbad|]). done.
Qed.

(** X16.  Two different cities are never asked for under the same URL. *)
Theorem wttr_distinguishes_cities (a b : string) :
  wttr (Some a) = wttr (Some b) -> a = b.
Proof.
  unfold wttr. cbn. intros [= Heq].
  by apply encodeURIComponent_inj, (append_inv_tail _ _ "?format=j1").
Qed.

Lemma wttr_distinguishes_cities_witness : "Oslo" = "Oslo".
Proof. by apply wttr_distinguishes_cities. Defined.

(** *** trim *)

Lemma strip_clean backwards l :
  ws_head backwards l = false -> strip backwards l = l.
Proof.
  destruct l as [|a [|b [|c r3]]]; cbn; [done| | |];
    destruct backwards; intros Hhead;
    destruct (ws1 _); try discriminate Hhead;
    try (destruct (ws2 _ _); try discriminate Hhead);
    try (destruct (ws3 _ _ _); try discriminate Hhead);
    reflexivity.
Qed.

Lemma strip_bounded backwards n l :
  length l <= n ->
  ws_head backwards (strip backwards l) = false
  /\ exists front, l = (front ++ strip backwards l)%list.
Proof.
  revert l. induction n as [|n IH]; intros l Hlen.
  { destruct l; [|cbn in Hlen; lia]. split; [done|by exists []]. }
  destruct l as [|a r1]; [split; [done|by exists []]|].
  cbn in Hlen. cbn [strip].
  destruct (ws1 (N_of_ascii a)) eqn:H1.
  { destruct (IH r1 ltac:(lia)) as [Hh [front Hf]]. split; [done|].
    exists (a :: front). cbn. by rewrite <- Hf. }
  destruct r1 as [|b r2].
  { split; [cbn; by rewrite H1|by exists []]. }
  cbn in Hlen.
  destruct (if backwards then ws2 (N_of_ascii b) (N_of_ascii a)
            else ws2 (N_of_ascii a) (N_of_ascii b)) eqn:H2.
  { destruct (IH r2 ltac:(lia)) as [Hh [front Hf]]. split; [done|].
    exists (a :: b :: front). cbn. by rewrite <- Hf. }
  destruct r2 as [|c r3].
  { split; [cbn; by rewrite H1, H2|by exists []]. }
  cbn in Hlen.
  destruct (if backwards
            then ws3 (N_of_ascii c) (N_of_ascii b) (N_of_ascii a)
            else ws3 (N_of_ascii a) (N_of_ascii b) (N_of_ascii c)) eqn:H3.
  { destruct (IH r3 ltac:(lia)) as [Hh [front Hf]]. split; [done|].
    exists (a :: b :: c :: front). cbn. by rewrite <- Hf. }
  split; [cbn; by rewrite H1, H2, H3|by exists []].
Qed.

(** What has no white space in front keeps none when cut at the end. *)
Lemma ws_head_front l back :
  ws_head false (l ++ back) = false -> ws_head false l = false.
Proof.
  destruct l as [|a [|b [|c r3]]]; cbn; [done| | |]; intros Hhead;
    destruct (ws1 _); try discriminate Hhead;
    try (destruct (ws2 _ _); try discriminate Hhead);
    try (destruct (ws3 _ _ _); try discriminate Hhead);
    reflexivity.
Qed.

Lemma strip_all_space l :
  Forall (fun c => ws1 (N_of_ascii c) = true) l -> strip false l = [].
Proof.
  induction 1 as [|c l Hc _ IH]; [done|]. cbn [strip]. by rewrite Hc.
Qed.

Lemma trim_chars s :
  let kept := rev (strip true (rev (strip false (list_ascii_of_string s)))) in
  list_ascii_of_string (trim s) = kept
  /\ ws_head false kept = false
  /\ ws_head true (rev kept) = false.
Proof.
  intros kept. unfold trim. fold kept.
  rewrite list_ascii_of_string_of_list_ascii. split; [done|].
  set (front := strip false (list_ascii_of_string s)) in *.
  destruct (strip_bounded false _ (list_ascii_of_string s) (le_n _))
    as [Hfront _]. fold front in Hfront.
  destruct (strip_bounded true _ (rev front) (le_n _)) as [Hback [cut Hcut]].
  split.
  - apply (ws_head_front kept (rev cut)).
    unfold kept. rewrite <- rev_app_distr, <- Hcut. by rewrite rev_involutive.
  - unfold kept. by rewrite rev_involutive.
Qed.

(** X17.  In part_000, white space around the city is dropped once and for
    all: the city the handler uses neither begins nor ends with white
    space or a line terminator, trimming it again changes nothing, and
    the handler runs on a city as it runs on the trimmed city. *)
Theorem P0_trims_city s net :
  trim (trim s) = trim s
  /\ ws_head false (list_ascii_of_string (trim s)) = false
  /\ ws_head true (rev (list_ascii_of_string (trim s))) = false
  /\ P0.getWeather {| city := Some (trim s) |} net
     = P0.getWeather {| city := Some s |} net.
Proof.
  destruct (trim_chars s) as (Hchars & Hfront & Hback).
  assert (Hidem : trim (trim s) = trim s).
  { unfold trim at 1. rewrite Hchars.
    rewrite (strip_clean false _ Hfront), (strip_clean true _ Hback).
    rewrite <- Hchars, rev_involutive. apply string_of_list_ascii_of_string. }
  rewrite Hchars. repeat split; try done.
  unfold P0.getWeather. cbn. by rewrite Hidem.
Qed.

(** X18.  In part_000, a city made of blanks, tabs and line breaks only is no
    city: nothing is fetched and the guidance is returned. *)
Theorem P0_blank_city s net :
  Forall (fun c => ws1 (N_of_ascii c) = true) (list_ascii_of_string s) ->
  P0.getWeather {| city := Some s |} net
  = {| calls := [];
       outcome := Fulfilled (say "Please specify a city name (e.g. London).") |}.
Proof.
  intros Hblank. unfold P0.getWeather. cbn.
  assert (Hempty : trim s = "") by (unfold trim; by rewrite strip_all_space).
  by rewrite Hempty.
Qed.

Lemma P0_blank_city_witness :
  outcome (P0.getWeather {| city := Some "   " |} (fun _ => Unreachable))
  = Fulfilled (say "Please specify a city name (e.g. London).").
Proof.
  rewrite (P0_blank_city "   "); [done|]. repeat constructor.
Defined.

End Strings.


(** * Failures, and the call as McpServer makes it *)

Section Dispatch.
Import Js Tools.

Implicit Types (net : Net) (params : Params) (rev : Revision)
  (data : JSON) (url : string).

Lemma get_throws_TypeError key data e : get key data = inl e -> e = TypeError.
Proof. destruct data; cbn; congruence. Qed.


Lemma interpolate_throws_TypeError v e : interpolate v = inl e -> e = TypeError.
Proof.
  destruct v as [j|]; cbn; [|done]. destruct (toString j); congruence.
Qed.

Lemma weather_text_throws_TypeError city cur e :
  weather_text city cur = inl e -> e = TypeError.
Proof.
  unfold weather_text, chain.
  repeat match goal with
         | |- context [interpolate ?v] =>
             let H := fresh "H" in
             destruct (interpolate v) eqn:H;
             [intros [= <-]; by eapply interpolate_throws_TypeError|]
         end.
  done.
Qed.



Lemma V3_outcome params net :
  calls (V3.getWeather params net) = [wttr (city params)]
  /\ outcome (V3.getWeather params net)
     = match net (wttr (city params)) with
       | Unreachable => Rejected FetchFailed
       | Silent => Pending
       | NotJson => Rejected BodySyntaxError
       | Body data =>
           match get "current_condition" data with
           | inl _ => Rejected TypeError
           | inr cc =>
               if truthy (index0_opt cc)
               then match weather_text (city params) (index0_opt cc) with
                    | inr text => Fulfilled (say text)
                    | inl _ => Rejected TypeError
                    end
               else Fulfilled (apology (city params))
           end
       end.
Proof.
  unfold V3.getWeather, and_then, fetch_json, lift. cbn.
  destruct (net _) as [| | |data]; cbn; try done.
  destruct (get "current_condition" data) as [e|cc] eqn:Hg; cbn.
  { by rewrite (get_throws_TypeError _ _ _ Hg). }
  destruct (truthy (index0_opt cc)); cbn; [|done].
  destruct (weather_text _ (index0_opt cc)) as [e|text] eqn:Hw; cbn; [|done].
  by rewrite (weather_text_throws_TypeError _ _ _ Hw).
Qed.





(** Every tool is called without its arguments: no registration has a
    schema. *)
Lemma call_tool_drops_arguments rev name arguments net run :
  call_tool rev name arguments net = Some run ->
  call_tool rev name {| city := None |} net = Some run.
Proof.
  unfold call_tool.
  destruct (find _ (registrations rev)) as [r|] eqn:Hfind; [|done].
  apply find_some in Hfind as [Hin _]. cbn in Hin.
  by destruct Hin as [<-|[<-|[<-|[<-|[<-|[]]]]]].
Qed.

Lemma call_get_weather rev arguments net :
  call_tool rev "get-weather" arguments net
  = Some (getWeather rev {| city := None |} net).
Proof. reflexivity. Qed.

(** C7, at the call of the claim: get-weather with the arguments
    [{ city: "London" }].  The callback is registered without a
    parameter schema, so it is called without the arguments and finds no
    city.  In V1, V2 and P0 nothing is fetched and the result is the
    sentence that asks for a city; V3 asks wttr.in about "undefined".
    In no revision and on no answer of the network is the London URL
    fetched or the London sentence the result. *)
Theorem weather_london_dispatched rev net :
  exists run,
    call_tool rev "get-weather" {| city := Some "London" |} net = Some run
    /\ ~ In "https://wttr.in/London?format=j1" (calls run)
    /\ outcome run
       <> Fulfilled (say
            "Weather in London: Cloudy. Temp 15 °C (59 °F), Humidity 70 %, Wind 10 km/h.")
    /\ match rev with
       | RevV1 =>
           run = {| calls := [];
                    outcome := Fulfilled (say "Please tell me which city.") |}
       | RevV2 | RevP0 =>
           run = {| calls := [];
                    outcome := Fulfilled
                      (say "Please specify a city name (e.g. London).") |}
       | RevV3 => calls run = ["https://wttr.in/undefined?format=j1"]
       end.
Proof.
  exists (getWeather rev {| city := None |} net).
  split; [apply call_get_weather|].
  destruct rev; try (repeat split; cbn; [tauto|discriminate]).
  change (getWeather RevV3) with V3.getWeather.
  destruct (V3_outcome {| city := None |} net) as [Hc Ho].
  rewrite Hc, Ho. split; [cbn; intros [[=]|[]]|]. split; [|reflexivity].
  destruct (net _) as [| | |data]; try discriminate.
  destruct (get "current_condition" data) as [e|cc]; [discriminate|].
  destruct (truthy (index0_opt cc)); [|discriminate].
  destruct (weather_text _ (index0_opt cc)) as [e|text] eqn:Hw; [discriminate|].
  revert Hw. unfold weather_text, chain.
  repeat match goal with
         | |- context [interpolate ?v] => destruct (interpolate v); [discriminate|]
         end.
  intros [= <-]. discriminate.
Qed.

End Dispatch.
